(** * Flux: lexer, parser and tree-walking evaluator of [src/lang/flux.js]

    A shallow embedding of the Flux pipeline
    (text -> tokens -> statement tree -> evaluation against one flat
    environment) and the properties of its specification.

    JavaScript strings are sequences of UTF-16 code units; they are
    modelled as lists of code units ([N]).  Numbers are IEEE 754 binary64
    values, modelled by Rocq's primitive floats.  Thrown exceptions are an
    explicit outcome, and the interpreter's mutable environment, the console
    and the browser (prompt, random numbers) are threaded as explicit
    state. *)

From Stdlib Require Import ZArith NArith List String Ascii Lia.
From Stdlib Require Import Floats.PrimFloat Floats.SpecFloat Floats.FloatOps.
From stdpp Require Import gmap list.
Import ListNotations.

Set Warnings "-register-all".

Open Scope string_scope.
Open Scope list_scope.
Open Scope N_scope.

(** ** JavaScript strings *)

Abbreviation code_unit := N (only parsing).
Abbreviation jsstring := (list N) (only parsing).

(** The code units of a literal of the source file (all of them ASCII). *)
Definition js (s : string) : jsstring :=
  map N_of_ascii (list_ascii_of_string s).

Definition between (lo hi c : code_unit) : bool := (lo <=? c) && (c <=? hi).

(** [\d], [\w] and [\s] of a regular expression without the [u] and [i]
    flags. *)
Definition is_digit (c : code_unit) : bool := between 48 57 c.

Definition is_ident_start (c : code_unit) : bool :=
  between 65 90 c || between 97 122 c || (c =? 95).

Definition is_word (c : code_unit) : bool := is_ident_start c || is_digit c.

Definition is_space (c : code_unit) : bool :=
  between 9 13 c || (c =? 32) || (c =? 160) || (c =? 5760)
  || between 8192 8202 c || (c =? 8232) || (c =? 8233) || (c =? 8239)
  || (c =? 8287) || (c =? 12288) || (c =? 65279).

(** The class [[+\-*/=();,{}<>]]. *)
Definition is_punct (c : code_unit) : bool :=
  existsb (N.eqb c) (js "+-*/=();,{}<>").

(** ** Lexer *)

Module Lexer.

(** A partial match: the matched text and the input left after it. *)
Definition matched : Type := jsstring * jsstring.

(** Greedy [X*] for a one-character class [X]: the longest prefix in the
    class, and the rest. *)
Fixpoint star (p : code_unit -> bool) (s : jsstring) : matched :=
  match s with
  | c :: s' =>
      if p c then let '(m, r) := star p s' in (c :: m, r) else ([], s)
  | [] => ([], [])
  end.

(** [[A-Za-z_]\w*] *)
Definition identifier (s : jsstring) : option matched :=
  match s with
  | c :: s' =>
      if is_ident_start c
      then let '(m, r) := star is_word s' in Some (c :: m, r)
      else None
  | [] => None
  end.

(** [\d+] *)
Definition digits (s : jsstring) : option matched :=
  match star is_digit s with
  | ([], _) => None
  | (m, r) => Some (m, r)
  end.

(** [\d+(\.\d+)?]: the optional group is taken when it matches. *)
Definition number (s : jsstring) : option matched :=
  match digits s with
  | Some (m, r) =>
      match r with
      | 46 :: r' =>
          match digits r' with
          | Some (f, r'') => Some (m ++ 46 :: f, r'')
          | None => Some (m, r)
          end
      | _ => Some (m, r)
      end
  | None => None
  end.

(** The two quoted-string alternatives (double quote, code unit 34, and
    single quote, code unit 39): a quote, the longest run without that
    quote, and the closing quote.  Without a closing quote the alternative
    fails. *)
Definition quoted (q : code_unit) (s : jsstring) : option matched :=
  match s with
  | c :: s' =>
      if c =? q then
        match star (fun d => negb (d =? q)) s' with
        | (m, d :: r) => Some (c :: m ++ [d], r)
        | (_, []) => None
        end
      else None
  | [] => None
  end.

(** [[+\-*/=();,{}<>]] *)
Definition punct (s : jsstring) : option matched :=
  match s with
  | c :: s' => if is_punct c then Some ([c], s') else None
  | [] => None
  end.

(** A literal such as [==]. *)
Fixpoint literal (l s : jsstring) : option matched :=
  match l with
  | [] => Some ([], s)
  | a :: l' =>
      match s with
      | c :: s' =>
          if c =? a
          then match literal l' s' with
               | Some (m, r) => Some (c :: m, r)
               | None => None
               end
          else None
      | [] => None
      end
  end.

(** The alternatives of the capture group of [tokenPattern], in the order
    the pattern lists them. *)
Definition alternatives : list (jsstring -> option matched) :=
  [ identifier; number; quoted 34; quoted 39; punct;
    literal (js "=="); literal (js "!="); literal (js "<=");
    literal (js ">="); literal (js "&&"); literal (js "||");
    literal (js "!") ].

(** Ordered choice: the first alternative that matches wins.  What follows
    the group in the pattern ([\s*]) matches everywhere, so a later
    alternative is never tried once one has matched. *)
Fixpoint first_match (alts : list (jsstring -> option matched))
    (s : jsstring) : option matched :=
  match alts with
  | [] => None
  | a :: alts' =>
      match a s with
      | Some m => Some m
      | None => first_match alts' s
      end
  end.

Definition group (s : jsstring) : option matched := first_match alternatives s.

(** The whole pattern [\s*( ... )\s*] tried at the head of [s]: capture
    group 1 and the input after the match.  The leading [\s*] takes all the
    white space there is; giving some of it back never helps, because no
    alternative starts with white space (see [space_starts_no_token] and
    [group_none]). *)
Definition match_here (s : jsstring) : option matched :=
  match group (snd (star is_space s)) with
  | Some (tok, r) => Some (tok, snd (star is_space r))
  | None => None
  end.

(** [tokenPattern.exec(input)] with [lastIndex] at the head of [s]: the
    pattern is not sticky, so the search moves on one code unit at a time
    until the pattern matches; [None] is the [null] result. *)
Fixpoint exec (s : jsstring) : option matched :=
  match match_here s with
  | Some m => Some m
  | None =>
      match s with
      | _ :: s' => exec s'
      | [] => None
      end
  end.

(** The [while] loop of [lexer]; every match consumes at least one code
    unit, so [S (length input)] iterations are enough (see
    [lex_loop_fuel]). *)
Fixpoint lex_loop (fuel : nat) (s : jsstring) : list jsstring :=
  match fuel with
  | O => []
  | S fuel' =>
      match exec s with
      | Some (tok, r) => tok :: lex_loop fuel' r
      | None => []
      end
  end.

Definition lexer (input : jsstring) : list jsstring :=
  lex_loop (S (length input)) input.

End Lexer.

Export Lexer.

(** ** JavaScript values and conversions *)

(** The entries of [builtInFunctions], in the order of the object
    literal. *)
Inductive builtin : Set :=
| Bprint | Blen | Bsqrt | Bpow | Babs | Bint | Bfloat | Bstr | Bupper
| Blower | Brandom | Binput | Btype | Bround | BtoString | BparseInt
| BparseFloat | BisNaN | Bslice | Bconcat.

(** The values a Flux run can produce: literals and what the built-ins
    return.  The only function values are the built-ins themselves. *)
Inductive value : Type :=
| VUndefined
| VNull
| VBool (b : bool)
| VNumber (x : float)
| VString (s : jsstring)
| VFunction (f : builtin).

(** A thrown exception: [new Error(msg)] of the source, or the [TypeError]
    the engine itself throws for a property read on [undefined] or [null]
    and for a call of a missing method (its message text is
    engine-specific and not modelled). *)
Inductive exn : Type :=
| Error (msg : jsstring)
| NativeTypeError.

(** The result of a computation: a value, a thrown exception, or the
    recursion bound of a model function being reached (see
    [parser_terminates]: a bookkeeping outcome, never a result of the
    program). *)
Inductive outcome (A : Type) : Type :=
| Return (a : A)
| Throw (e : exn)
| OutOfFuel.
Arguments Return {A} a.
Arguments Throw {A} e.
Arguments OutOfFuel {A}.

#[global] Instance builtin_eq_dec : EqDecision builtin.
Proof. solve_decision. Defined.

Module Number.

(** The correctly rounded binary64 value of [n / d]. *)
Definition of_ratio (n : N) (d : positive) : float :=
  match n with
  | Npos p =>
      SF2Prim (SFdiv prec emax (S754_finite false p 0) (S754_finite false d 0))
  | N0 => PrimFloat.zero
  end.

(** The correctly rounded binary64 value of [n * 10^e]. *)
Definition of_decimal (n : N) (e : Z) : float :=
  match e with
  | Zneg k => of_ratio n (10 ^ k)
  | _ => of_ratio (n * 10 ^ Z.to_N e) 1
  end.

Definition of_nat (n : nat) : float := of_ratio (N.of_nat n) 1.

Definition digit_value (c : code_unit) : option N :=
  if is_digit c then Some (c - 48)
  else if between 97 122 c then Some (c - 87)
  else if between 65 90 c then Some (c - 55)
  else None.

(** The value of a non-empty run of digits in base [base]. *)
Fixpoint digits_value (base acc : N) (s : jsstring) : option N :=
  match s with
  | [] => Some acc
  | c :: s' =>
      match digit_value c with
      | Some d =>
          if d <? base then digits_value base (base * acc + d) s' else None
      | None => None
      end
  end.

Definition integer_literal (base : N) (s : jsstring) : option N :=
  match s with
  | [] => None
  | _ => digits_value base 0 s
  end.

Definition trim (s : jsstring) : jsstring :=
  rev (snd (star is_space (rev (snd (star is_space s))))).

(** The longest prefix that is a [StrUnsignedDecimalLiteral], with the input
    after it. *)
Definition decimal_prefix (s : jsstring) : option (float * jsstring) :=
  match literal (js "Infinity") s with
  | Some (_, r) => Some (infinity, r)
  | None =>
      let '(ip, r) := star is_digit s in
      let '(fp, r') :=
        match r with
        | 46 :: t => star is_digit t
        | _ => ([], r)
        end in
      let '(e, r'') :=
        match r' with
        | c :: t =>
            if (c =? 101) || (c =? 69) then
              let '(neg, t') :=
                match t with
                | 43 :: u => (false, u)
                | 45 :: u => (true, u)
                | _ => (false, t)
                end in
              match star is_digit t' with
              | ([], _) => (0%Z, r')
              | (ds, u) =>
                  let n := Z.of_N (default 0 (digits_value 10 0 ds)) in
                  ((if neg then - n else n)%Z, u)
              end
            else (0%Z, r')
        | [] => (0%Z, r')
        end in
      match ip ++ fp with
      | [] => None
      | ds =>
          let n := default 0 (digits_value 10 0 ds) in
          Some (of_decimal n (e - Z.of_nat (length fp)), r'')
      end
  end.

(** [StrUnsignedDecimalLiteral]: the whole of [s] is such a literal. *)
Definition unsigned_decimal (s : jsstring) : option float :=
  match decimal_prefix s with
  | Some (x, []) => Some x
  | _ => None
  end.

Definition non_decimal (s : jsstring) : option float :=
  match s with
  | 48 :: p :: t =>
      let base :=
        if (p =? 120) || (p =? 88) then Some 16
        else if (p =? 111) || (p =? 79) then Some 8
        else if (p =? 98) || (p =? 66) then Some 2
        else None in
      match base with
      | Some b => option_map (fun n => of_ratio n 1) (integer_literal b t)
      | None => None
      end
  | _ => None
  end.

(** [StringToNumber]: white space is trimmed, the empty string is [+0],
    and text outside the [StringNumericLiteral] grammar is [NaN].  The value
    is rounded to nearest, ties to even, as the engines do (the standard
    also allows an approximation after the 20th significant digit). *)
Definition string_to_number (s : jsstring) : float :=
  match trim s with
  | [] => PrimFloat.zero
  | (c :: t) as u =>
      match non_decimal u with
      | Some x => x
      | None =>
          let r :=
            if c =? 43 then unsigned_decimal t
            else if c =? 45 then option_map PrimFloat.opp (unsigned_decimal t)
            else unsigned_decimal u in
          match r with
          | Some x => x
          | None => nan
          end
      end
  end.

(** [ToIntegerOrInfinity] of a number. *)
Inductive int_inf : Set :=
| NegInf
| Fin (z : Z)
| PosInf.

Definition to_integer_or_infinity (x : float) : int_inf :=
  match Prim2SF x with
  | S754_nan | S754_zero _ => Fin 0
  | S754_infinity s => if s then NegInf else PosInf
  | S754_finite s m e =>
      let a := (if 0 <=? e then Zpos m * 2 ^ e else Zpos m / 2 ^ (- e))%Z in
      Fin (if s then (- a)%Z else a)
  end.


(** [parseFloat] of a string. *)
Definition parse_float (s : jsstring) : float :=
  let t := snd (star is_space s) in
  let r :=
    match t with
    | 43 :: u => option_map fst (decimal_prefix u)
    | 45 :: u => option_map (fun p => PrimFloat.opp (fst p)) (decimal_prefix u)
    | _ => option_map fst (decimal_prefix t)
    end in
  default nan r.

(** [parseInt(s, 10)] of a string. *)
Definition parse_int (s : jsstring) : float :=
  let t := snd (star is_space s) in
  let '(neg, u) :=
    match t with
    | 43 :: u => (false, u)
    | 45 :: u => (true, u)
    | _ => (false, t)
    end in
  match star is_digit u with
  | ([], _) => nan
  | (ds, _) =>
      let x := of_ratio (default 0 (digits_value 10 0 ds)) 1 in
      if neg then PrimFloat.opp x else x
  end.

(** [Math.round]: the integer nearest to [x], ties towards +infinity, with
    the sign of [x] when the result is zero. *)
Definition math_round (x : float) : float :=
  match Prim2SF x with
  | S754_finite s m e =>
      if (0 <=? e)%Z then x
      else
        let d := (2 ^ (- e))%Z in
        let r := (((if s then - Zpos m else Zpos m) * 2 + d) / (2 * d))%Z in
        match r with
        | Z0 => if s then PrimFloat.neg_zero else PrimFloat.zero
        | Zpos p => of_ratio (Npos p) 1
        | Zneg p => PrimFloat.opp (of_ratio (Npos p) 1)
        end
  | _ => x
  end.

End Number.

(** ** State and exceptions

    A computation reads and updates a state and either returns or throws;
    the state survives a throw, as JavaScript's does. *)

Section Monad.
Context {S : Type}.

Definition M (A : Type) : Type := S -> outcome A * S.

Definition ret {A} (a : A) : M A := fun s => (Return a, s).
Definition throw {A} (e : exn) : M A := fun s => (Throw e, s).
Definition out_of_fuel {A} : M A := fun s => (OutOfFuel, s).

Definition bind {A B} (c : M A) (k : A -> M B) : M B :=
  fun s =>
    match c s with
    | (Return a, s') => k a s'
    | (Throw e, s') => (Throw e, s')
    | (OutOfFuel, s') => (OutOfFuel, s')
    end.
End Monad.

Notation "'let*' x ':=' c 'in' k" := (bind c (fun x => k))
  (at level 10, x pattern, c at level 100, k at level 200).
Notation "c ';;' k" := (bind c (fun _ => k))
  (at level 100, k at level 200, right associativity).

(** ** Syntax trees *)

(** The objects [parser] builds, by their [type] field.  A [keyword] node is
    the one node type [Interpreter.eval] has no case for. *)
Inductive node : Type :=
| NNumber (value : float)
| NString (value : jsstring)
| NLiteral (value : value)
| NKeyword (value : jsstring)
| NVariable (name : jsstring)
| NCall (callee : node) (arguments : list node)
| NBinary (operator : jsstring) (left right : node)
| NVarDecl (kind name : jsstring) (expr : node)
| NExprStmt (expr : node).

(** ** Keyword table *)

Definition keywords : list jsstring :=
  map js
    [ "if"; "else"; "elseif"; "switch"; "case"; "default"; "while"; "for";
      "break"; "continue"; "return";
      "let"; "const"; "var"; "mutable"; "static";
      "function"; "fn"; "lambda"; "async"; "await";
      "int"; "float"; "string"; "bool"; "object"; "array"; "enum"; "class";
      "try"; "catch"; "finally"; "throw";
      "and"; "or"; "not"; "is"; "in"; "mod";
      "import"; "export"; "package"; "module"; "include";
      "class"; "extends"; "super"; "this"; "interface"; "abstract";
      "true"; "false"; "null"; "new"; "delete" ].

Definition isKeyword (word : jsstring) : bool := bool_decide (word ∈ keywords).

(** ** String helpers *)

(** [str.slice(start, end)] on integer-or-infinity bounds. *)
Definition slice_index (len : Z) (i : Number.int_inf) : Z :=
  match i with
  | Number.NegInf => 0
  | Number.Fin z => if (z <? 0)%Z then Z.max (len + z) 0 else Z.min z len
  | Number.PosInf => len
  end.

Definition string_slice (s : jsstring) (start stop : Number.int_inf)
  : jsstring :=
  let len := Z.of_nat (length s) in
  let from := slice_index len start in
  let to := slice_index len stop in
  take (Z.to_nat (to - from)) (drop (Z.to_nat from) s).

(** The text of [`${token}`] for a token or [undefined]. *)
Definition show_token (t : option jsstring) : jsstring :=
  match t with
  | Some s => s
  | None => js "undefined"
  end.

Definition quote (s : jsstring) : jsstring := 34 :: s ++ [34].

(** [/^[A-Za-z_]\w*$/] *)
Definition is_identifier (s : jsstring) : bool :=
  match s with
  | c :: s' => is_ident_start c && forallb is_word s'
  | [] => false
  end.

(** ** Parser *)

Module Parser.
Section WithTokens.

Variable tokens : list jsstring.

(** The parser's state is [pos], the index of the next token. *)
Abbreviation P := (@M nat) (only parsing).

Definition peek : P (option jsstring) :=
  fun pos => (Return (tokens !! pos), pos).

(** [consume(expected)]; [consume None] is the call without argument.
    An empty [expected] is falsy and is not checked. *)
Definition consume (expected : option jsstring) : P (option jsstring) :=
  fun pos =>
    let token := tokens !! pos in
    match expected with
    | Some ((_ :: _) as e) =>
        if bool_decide (token = Some e) then (Return token, S pos)
        else (Throw (Error (js "Expected " ++ quote e ++ js " but got "
                            ++ quote (show_token token))), pos)
    | _ => (Return token, S pos)
    end.

Definition isAtEnd : P bool :=
  fun pos => (Return (bool_decide (length tokens <= pos)%nat), pos).

Definition peek_is (s : string) : P bool :=
  let* t := peek in ret (bool_decide (t = Some (js s))).

Definition parsePrimary : P node :=
  let* token := peek in
  match token with
  | None | Some [] => throw (Error (js "Unexpected end of input"))
  | Some ((c :: _) as token) =>
      if negb (is_nan (Number.string_to_number token)) then
        consume None;;
        ret (NNumber (Number.string_to_number token))
      else if (c =? 34) || (c =? 39) then
        consume None;;
        ret (NString (string_slice token (Number.Fin 1) (Number.Fin (-1))))
      else if isKeyword token then
        consume None;;
        if bool_decide (token = js "true") then ret (NLiteral (VBool true))
        else if bool_decide (token = js "false")
        then ret (NLiteral (VBool false))
        else if bool_decide (token = js "null") then ret (NLiteral VNull)
        else ret (NKeyword token)
      else
        consume None;;
        ret (NVariable token)
  end.

Definition is_binary_operator (t : option jsstring) : bool :=
  bool_decide (t ∈ map (fun s => Some (js s)) ["+"; "-"; "*"; "/"; "=="; "!="]).

(** The mutually recursive functions and their loops.  [fuel] bounds the
    depth of calls and loop iterations; each function gives up with
    [OutOfFuel] at depth zero. *)
Fixpoint parseExpression (fuel : nat) : P node :=
  match fuel with
  | O => out_of_fuel
  | S fuel =>
      let* lhs := parseCall fuel in
      binary_loop fuel lhs
  end

(** [while (peek() === "+" || ...)] of [parseExpression]. *)
with binary_loop (fuel : nat) (lhs : node) : P node :=
  match fuel with
  | O => out_of_fuel
  | S fuel =>
      let* t := peek in
      if is_binary_operator t then
        let* operator := consume None in
        let* rhs := parseCall fuel in
        binary_loop fuel (NBinary (show_token operator) lhs rhs)
      else ret lhs
  end

with parseCall (fuel : nat) : P node :=
  match fuel with
  | O => out_of_fuel
  | S fuel =>
      let* expr := parsePrimary in
      call_loop fuel expr
  end

(** [while (true)] of [parseCall]. *)
with call_loop (fuel : nat) (expr : node) : P node :=
  match fuel with
  | O => out_of_fuel
  | S fuel =>
      let* open := peek_is "(" in
      if open then
        consume (Some (js "("));;
        let* close := peek_is ")" in
        let* args := (if close then ret [] else args_loop fuel []) in
        consume (Some (js ")"));;
        call_loop fuel (NCall expr args)
      else ret expr
  end

(** [do { args.push(parseExpression()) } while (peek() === "," &&
    consume(","))] *)
with args_loop (fuel : nat) (args : list node) : P (list node) :=
  match fuel with
  | O => out_of_fuel
  | S fuel =>
      let* arg := parseExpression fuel in
      let args := args ++ [arg] in
      let* comma := peek_is "," in
      if comma then consume (Some (js ","));; args_loop fuel args
      else ret args
  end.

Definition is_declaration_keyword (t : option jsstring) : bool :=
  bool_decide (t ∈ map (fun s => Some (js s)) ["let"; "const"; "var"]).

Definition parseStatement (fuel : nat) : P node :=
  let* t := peek in
  if is_declaration_keyword t then
    let* kind := consume None in
    let* name := consume None in
    match name with
    | None => throw NativeTypeError
    | Some name =>
        if negb (is_identifier name)
        then throw (Error (js "Invalid variable name"))
        else
          consume (Some (js "="));;
          let* expr := parseExpression fuel in
          consume (Some (js ";"));;
          ret (NVarDecl (show_token kind) name expr)
    end
  else
    let* expr := parseExpression fuel in
    consume (Some (js ";"));;
    ret (NExprStmt expr).

(** [while (!isAtEnd()) statements.push(parseStatement())] *)
Fixpoint statements_loop (fuel : nat) (statements : list node)
  : P (list node) :=
  match fuel with
  | O => out_of_fuel
  | S fuel =>
      let* stop := isAtEnd in
      if stop then ret statements
      else
        let* stmt := parseStatement fuel in
        statements_loop fuel (statements ++ [stmt])
  end.

End WithTokens.

(** Every iteration and every round of calls consumes a token, so a depth
    proportional to the number of tokens is never reached (see
    [parser_terminates]). *)
Definition fuel_for (tokens : list jsstring) : nat := 4 + 2 * length tokens.

Definition parser (tokens : list jsstring) : outcome (list node) :=
  fst (statements_loop tokens (fuel_for tokens) [] 0%nat).

End Parser.

Export Parser.

(** ** The JavaScript host

    What the engine and the browser provide and this development does not
    define: the decimal text of a number, the text of a function, [Math.pow],
    case mapping outside ASCII, and the answers of [Math.random] and
    [prompt] (the n-th call of each). *)
Record Host : Type := {
  number_to_string : float -> jsstring;
  function_to_string : builtin -> jsstring;
  math_pow : float -> float -> float;
  to_upper_case : jsstring -> jsstring;
  to_lower_case : jsstring -> jsstring;
  math_random : nat -> float;
  window_prompt : nat -> list value -> option jsstring
}.


(** ** Interpreter *)

(** The state of a run: the interpreter's [env] (an object without
    prototype, so a finite map from property names to values), what was
    written to the console (one entry per [console.log] call), and how
    many times [Math.random] and [prompt] have been called. *)
Record state : Type := {
  env : gmap (list N) value;
  console : list (list value);
  randoms : nat;
  prompts : nat
}.

Definition with_env (f : gmap (list N) value -> gmap (list N) value)
    (st : state) : state :=
  {| env := f (env st); console := console st;
     randoms := randoms st; prompts := prompts st |}.

Module Interpreter.
Section WithHost.

Variable host : Host.

Abbreviation I := (@M state) (only parsing).

(** *** Conversions of values *)

Definition bool_to_string (b : bool) : jsstring :=
  js (if b then "true" else "false").

Definition to_string (v : value) : jsstring :=
  match v with
  | VUndefined => js "undefined"
  | VNull => js "null"
  | VBool b => bool_to_string b
  | VNumber x => number_to_string host x
  | VString s => s
  | VFunction f => function_to_string host f
  end.

Definition to_number (v : value) : float :=
  match v with
  | VUndefined => nan
  | VNull => PrimFloat.zero
  | VBool b => if b then PrimFloat.one else PrimFloat.zero
  | VNumber x => x
  | VString s => Number.string_to_number s
  | VFunction f => Number.string_to_number (function_to_string host f)
  end.

Definition type_of (v : value) : string :=
  match v with
  | VUndefined => "undefined"
  | VNull => "object"
  | VBool _ => "boolean"
  | VNumber _ => "number"
  | VString _ => "string"
  | VFunction _ => "function"
  end.

Definition is_ascii (s : jsstring) : bool := forallb (fun c => c <? 128) s.

Definition toUpperCase (s : jsstring) : jsstring :=
  if is_ascii s
  then map (fun c => if between 97 122 c then c - 32 else c) s
  else to_upper_case host s.

Definition toLowerCase (s : jsstring) : jsstring :=
  if is_ascii s
  then map (fun c => if between 65 90 c then c + 32 else c) s
  else to_lower_case host s.

(** *** Operators *)

(** [left + right]: a function operand is first converted to its text;
    if either side is then a string the texts are concatenated, otherwise
    the numbers are added. *)
Definition add (l r : value) : value :=
  let is_text v :=
    match v with VString _ | VFunction _ => true | _ => false end in
  if is_text l || is_text r
  then VString (to_string l ++ to_string r)
  else VNumber (to_number l + to_number r)%float.

(** [left === right] *)
Definition strict_equal (l r : value) : bool :=
  match l, r with
  | VUndefined, VUndefined | VNull, VNull => true
  | VBool a, VBool b => bool_decide (a = b)
  | VNumber x, VNumber y => PrimFloat.eqb x y
  | VString s, VString t => bool_decide (s = t)
  | VFunction f, VFunction g => bool_decide (f = g)
  | _, _ => false
  end.

Definition binary (operator : jsstring) (l r : value) : I value :=
  if bool_decide (operator = js "+") then ret (add l r)
  else if bool_decide (operator = js "-")
  then ret (VNumber (to_number l - to_number r)%float)
  else if bool_decide (operator = js "*")
  then ret (VNumber (to_number l * to_number r)%float)
  else if bool_decide (operator = js "/")
  then ret (VNumber (to_number l / to_number r)%float)
  else if bool_decide (operator = js "==") then ret (VBool (strict_equal l r))
  else if bool_decide (operator = js "!=")
  then ret (VBool (negb (strict_equal l r)))
  else throw (Error (js "Unsupported operator " ++ operator)).

(** *** Built-in functions *)

(** The [length] property of each built-in: its number of declared
    parameters. *)
Definition arity (f : builtin) : nat :=
  match f with
  | Bprint | Brandom | Binput => 0
  | Bpow | Bconcat => 2
  | Bslice => 3
  | _ => 1
  end.

(** [callee(...args)] for a built-in: a missing argument is
    [undefined], extra ones are ignored. *)
Definition call (f : builtin) (args : list value) : I value :=
  let a0 := nth 0 args VUndefined in
  let a1 := nth 1 args VUndefined in
  let a2 := nth 2 args VUndefined in
  match f with
  | Bprint =>
      fun st =>
        (Return VUndefined,
         {| env := env st; console := console st ++ [args];
            randoms := randoms st; prompts := prompts st |})
  | Blen =>
      match a0 with
      | VString s => ret (VNumber (Number.of_nat (length s)))
      | VFunction g => ret (VNumber (Number.of_nat (arity g)))
      | VUndefined | VNull => throw NativeTypeError
      | _ => ret VUndefined
      end
  | Bsqrt => ret (VNumber (PrimFloat.sqrt (to_number a0)))
  | Bpow => ret (VNumber (math_pow host (to_number a0) (to_number a1)))
  | Babs => ret (VNumber (PrimFloat.abs (to_number a0)))
  | Bint | BparseInt => ret (VNumber (Number.parse_int (to_string a0)))
  | Bfloat | BparseFloat => ret (VNumber (Number.parse_float (to_string a0)))
  | Bstr => ret (VString (to_string a0))
  | Bupper =>
      match a0 with
      | VString s => ret (VString (toUpperCase s))
      | _ => throw NativeTypeError
      end
  | Blower =>
      match a0 with
      | VString s => ret (VString (toLowerCase s))
      | _ => throw NativeTypeError
      end
  | Brandom =>
      fun st =>
        (Return (VNumber (math_random host (randoms st))),
         {| env := env st; console := console st;
            randoms := S (randoms st); prompts := prompts st |})
  | Binput =>
      fun st =>
        (Return (match window_prompt host (prompts st) args with
                 | Some s => VString s
                 | None => VNull
                 end),
         {| env := env st; console := console st;
            randoms := randoms st; prompts := S (prompts st) |})
  | Btype => ret (VString (js (type_of a0)))
  | Bround => ret (VNumber (Number.math_round (to_number a0)))
  | BtoString =>
      match a0 with
      | VUndefined | VNull => throw NativeTypeError
      | _ => ret (VString (to_string a0))
      end
  | BisNaN => ret (VBool (is_nan (to_number a0)))
  | Bslice =>
      match a0 with
      | VString s =>
          let start := Number.to_integer_or_infinity (to_number a1) in
          let stop :=
            match a2 with
            | VUndefined => Number.PosInf
            | _ => Number.to_integer_or_infinity (to_number a2)
            end in
          ret (VString (string_slice s start stop))
      | _ => throw NativeTypeError
      end
  | Bconcat =>
      match a0 with
      | VString s => ret (VString (s ++ to_string a1))
      | _ => throw NativeTypeError
      end
  end.

(** *** [Interpreter.eval] *)

Definition lookup_variable (name : jsstring) : I value :=
  fun st =>
    match env st !! name with
    | Some v => (Return v, st)
    | None =>
        (Throw (Error (js "Undefined variable '" ++ name ++ js "'")), st)
    end.

Definition assign (name : jsstring) (val : value) : I unit :=
  fun st => (Return tt, with_env (insert name val) st).

Fixpoint eval (n : node) : I value :=
  match n with
  | NNumber value => ret (VNumber value)
  | NString value => ret (VString value)
  | NLiteral value => ret value
  | NVariable name => lookup_variable name
  | NCall callee arguments =>
      let* callee := eval callee in
      match callee with
      | VFunction f =>
          let* args :=
            (fix map_eval (l : list node) : I (list value) :=
               match l with
               | [] => ret []
               | arg :: l' =>
                   let* v := eval arg in
                   let* vs := map_eval l' in
                   ret (v :: vs)
               end) arguments in
          call f args
      | _ => throw (Error (js "Call of non-function"))
      end
  | NBinary operator lhs rhs =>
      let* l := eval lhs in
      let* r := eval rhs in
      binary operator l r
  | NVarDecl _ name expr =>
      let* val := eval expr in
      assign name val;;
      ret VNull
  | NExprStmt expr => eval expr
  | NKeyword _ => throw (Error (js "Unknown node type keyword"))
  end.

(** [node.arguments.map(arg => this.eval(arg))] *)
Fixpoint map_eval (l : list node) : I (list value) :=
  match l with
  | [] => ret []
  | arg :: l' =>
      let* v := eval arg in
      let* vs := map_eval l' in
      ret (v :: vs)
  end.

(** *** [executeFlux] *)

Definition builtInFunctions : list (string * builtin) :=
  [ ("print", Bprint); ("len", Blen); ("sqrt", Bsqrt); ("pow", Bpow);
    ("abs", Babs); ("int", Bint); ("float", Bfloat); ("str", Bstr);
    ("upper", Bupper); ("lower", Blower); ("random", Brandom);
    ("input", Binput); ("type", Btype); ("round", Bround);
    ("toString", BtoString); ("parseInt", BparseInt);
    ("parseFloat", BparseFloat); ("isNaN", BisNaN); ("slice", Bslice);
    ("concat", Bconcat) ].

(** [for (const fn in builtInFunctions) interpreter.env[fn] = ...] on the
    empty environment of [new Interpreter()]. *)
Definition install_builtins (e : gmap (list N) value) : gmap (list N) value :=
  fold_left (fun e '(fn, f) => <[js fn := VFunction f]> e)
            builtInFunctions e.

(** [for (const stmt of ast) interpreter.eval(stmt)] *)
Fixpoint run (ast : list node) : I unit :=
  match ast with
  | [] => ret tt
  | stmt :: ast' => eval stmt;; run ast'
  end.

(** [executeFlux(code)].  The interpreter is created after parsing, so the
    environment of the incoming state is replaced by a fresh one; when
    [parser] throws, the state is left as it was. *)
Definition executeFlux (code : jsstring) : I unit :=
  let tokens := lexer code in
  match parser tokens with
  | Return ast =>
      fun st => run ast (with_env (fun _ => install_builtins ∅) st)
  | Throw e => throw e
  | OutOfFuel => out_of_fuel
  end.

End WithHost.
End Interpreter.

Export Interpreter.

(** ** Predicates used in the statements below *)

(** [c] can be the first code unit of one of the token alternatives. *)
Definition starts_token (c : code_unit) : bool :=
  is_ident_start c || is_digit c || (c =? 34) || (c =? 39) || is_punct c
  || (c =? 33) || (c =? 38) || (c =? 124).

(** A matcher is sound when what it returns splits its input and the
    matched text is not empty. *)
Definition sound (a : jsstring -> option matched) : Prop :=
  forall s m r, a s = Some (m, r) -> s = m ++ r /\ m <> [].

(** A computation that always returns or throws. *)
Definition total {A} (c : @M state A) : Prop :=
  forall st, fst (c st) <> OutOfFuel.

(** The trees [parseExpression] builds: no declaration or statement
    inside. *)
Fixpoint expression (n : node) : bool :=
  match n with
  | NCall c args => expression c && forallb expression args
  | NBinary _ l r => expression l && expression r
  | NVarDecl _ _ _ | NExprStmt _ => false
  | _ => true
  end.

(** The trees [parseStatement] builds. *)
Definition statement (n : node) : bool :=
  match n with
  | NVarDecl _ _ e | NExprStmt e => expression e
  | _ => false
  end.

Definition keeps_env {A} (c : @M state A) : Prop :=
  forall st, env (snd (c st)) = env st.

(** A [keyword] node occurs in the tree. *)
Fixpoint has_keyword (n : node) : bool :=
  match n with
  | NKeyword _ => true
  | NCall c args => has_keyword c || existsb has_keyword args
  | NBinary _ l r => has_keyword l || has_keyword r
  | NVarDecl _ _ e | NExprStmt e => has_keyword e
  | _ => false
  end.

(** A computation that throws from every state. *)
Definition throws {A} (c : @M state A) : Prop :=
  forall st, exists e st', c st = (Throw e, st').

(** A postcondition on a parser computation started at [pos]: it does not
    reach the recursion bound, and what it returns satisfies [R]. *)
Definition post {A} (c : @M nat A) (pos : nat) (R : A -> nat -> Prop) : Prop :=
  match c pos with
  | (Return a, pos') => R a pos'
  | (Throw _, _) => True
  | (OutOfFuel, _) => False
  end.

(** A host and a state for closed examples.  None of the examples reaches
    an operation of the host, so its choice does not matter. *)
Definition sample_host : Host :=
  {| number_to_string := fun _ => js "0";
     function_to_string := fun _ => js "function () { [native code] }";
     math_pow := fun _ _ => nan;
     to_upper_case := fun s => s;
     to_lower_case := fun s => s;
     math_random := fun _ => PrimFloat.zero;
     window_prompt := fun _ _ => None |}.

Definition initial_state : state :=
  {| env := ∅; console := []; randoms := 0; prompts := 0 |}.

(** The state [executeFlux] starts the statements in. *)
Definition fresh (st : state) : state :=
  with_env (fun _ => install_builtins ∅) st.

(** * Properties *)

(** ** The model on sample inputs *)

Module Samples.

Example lexer_sample :
  lexer (js "let x1 = 12.5 + foo('a b', 7) != 3;")
  = map js ["let"; "x1"; "="; "12.5"; "+"; "foo"; "("; "'a b'"; ",";
            "7"; ")"; "!="; "3"; ";"].
Proof. vm_compute. reflexivity. Qed.

Example number_samples :
  map Number.string_to_number
      (map js ["1"; "12.5"; "0.1"; " 42 "; ""; "0x1F"; "-3"; "1e3"; ".5";
               "9007199254740993"; "Infinity"])
  = [1; 12.5; 0x1.999999999999ap-4; 42; 0; 31; -3; 1000; 0.5;
     9007199254740992; infinity]%float.
Proof. vm_compute. reflexivity. Qed.

Example not_numbers :
  forallb (fun s => is_nan (Number.string_to_number (js s)))
          ["x"; "len"; "+"; "-"; "("; "1.2.3"; "'1'"; "1e"; "."; "0x";
           "NaN"; "infinity"; "true"; "=="; ";"]
  = true.
Proof. vm_compute. reflexivity. Qed.

Example parser_sample :
  parser (lexer (js "let x = f(1, 'a')(2) - y; if;"))
  = Return
      [ NVarDecl (js "let") (js "x")
          (NBinary (js "-")
             (NCall (NCall (NVariable (js "f"))
                           [NNumber 1; NString (js "a")])
                    [NNumber 2])
             (NVariable (js "y")));
        NExprStmt (NKeyword (js "if")) ].
Proof. vm_compute. reflexivity. Qed.

Example parse_samples :
  map Number.parse_float (map js ["3.5abc"; " -2e3x"; "1e"; ".5."; "Infinityx"])
  = [3.5; -2000; 1; 0.5; infinity]%float
  /\ map Number.parse_int (map js ["42px"; " -7.9"; "0x10"]) = [42; -7; 0]%float
  /\ map Number.math_round [2.5; -2.5; 0.25; 3; -7.75]%float
     = [3; -2; 0; 3; -8]%float
  /\ is_nan (Number.parse_int (js "px")) = true.
Proof. vm_compute. repeat split; reflexivity. Qed.

(** A declaration, a reference, and a re-declaration with another kind. *)
Example redeclaration_sample (host : Host) (st : state) :
  let r :=
    executeFlux host
      (js "let x = 1+2; let y = x; const x = 'a'; var z = x + y;") st in
  fst r = Return tt
  /\ env (snd r) !! js "x" = Some (VString (js "a"))
  /\ env (snd r) !! js "y" = Some (VNumber 3)
  /\ console (snd r) = console st.
Proof. vm_compute. repeat split; reflexivity. Qed.

(** A name that is a keyword can be declared, but the same token in an
    expression is a [keyword] node, not a reference. *)
Example keyword_name_sample (host : Host) (st : state) :
  parser (lexer (js "let if = 1; if;"))
  = Return [ NVarDecl (js "let") (js "if") (NNumber 1);
             NExprStmt (NKeyword (js "if")) ]
  /\ fst (executeFlux host (js "let if = 1; if;") st)
     = Throw (Error (js "Unknown node type keyword")).
Proof. vm_compute. split; reflexivity. Qed.

(** An unterminated string literal: the quote is skipped and the rest is
    tokenized. *)
Example unterminated_string_sample :
  lexer (js "print('abc);") = map js ["print"; "("; "abc"; ")"; ";"].
Proof. vm_compute. reflexivity. Qed.

End Samples.

(** ** Lexer: every match is a non-empty prefix of the input *)

Module LexerFacts.

Lemma star_split p s : s = fst (star p s) ++ snd (star p s).
Proof.
  induction s as [|c s IH]; simpl; [reflexivity|].
  destruct (p c); [|reflexivity].
  destruct (star p s) as [m r]; simpl in *. now f_equal.
Qed.

Lemma star_length p s : (length (snd (star p s)) <= length s)%nat.
Proof.
  rewrite (star_split p s) at 2. rewrite length_app. lia.
Qed.

Lemma identifier_sound : sound identifier.
Proof.
  intros [|c s] m r; simpl; [discriminate|].
  destruct (is_ident_start c); [|discriminate].
  pose proof (star_split is_word s) as E.
  destruct (star is_word s) as [m' r']; simpl in E.
  intros [= <- <-]. split; [now rewrite E at 1|discriminate].
Qed.

Lemma digits_sound : sound digits.
Proof.
  intros s m r. unfold digits.
  pose proof (star_split is_digit s) as E.
  destruct (star is_digit s) as [[|d m'] r']; simpl in E; [discriminate|].
  intros [= <- <-]. split; [exact E|discriminate].
Qed.

Lemma number_sound : sound number.
Proof.
  intros s m r. unfold number.
  destruct (digits s) as [[m1 r1]|] eqn:E1; [|discriminate].
  destruct (digits_sound _ _ _ E1) as [-> Hm1].
  assert (Hdone : Some (m1, r1) = Some (m, r) -> m1 ++ r1 = m ++ r /\ m <> [])
    by (intros [= <- <-]; now split).
  destruct r1 as [|c r1]; [exact Hdone|].
  destruct (N.eqb_spec c 46) as [->|Hne].
  - destruct (digits r1) as [[f r2]|] eqn:E2; [|exact Hdone].
    destruct (digits_sound _ _ _ E2) as [-> _].
    intros [= <- <-]. split.
    + now rewrite <- app_assoc.
    + destruct m1; [congruence|discriminate].
  - assert (Hc : forall (X : Type) (a b : X),
               match c with 46 => a | _ => b end = b).
    { intros X a b.
      destruct c as [|p]; [reflexivity|].
      do 6 (destruct p as [p|p|]; try reflexivity). congruence. }
    rewrite Hc. exact Hdone.
Qed.

Lemma quoted_sound q : sound (quoted q).
Proof.
  intros [|c s] m r; simpl; [discriminate|].
  destruct (c =? q); [|discriminate].
  pose proof (star_split (fun d => negb (d =? q)) s) as E.
  destruct (star (fun d => negb (d =? q)) s) as [m' [|d r']];
    simpl in E; [discriminate|].
  intros [= <- <-]. split; [|discriminate].
  rewrite E at 1. simpl. now rewrite <- app_assoc.
Qed.

Lemma punct_sound : sound punct.
Proof.
  intros [|c s] m r; simpl; [discriminate|].
  destruct (is_punct c); [|discriminate].
  intros [= <- <-]. now split.
Qed.

Lemma literal_split l s m r : literal l s = Some (m, r) -> s = m ++ r /\ m = l.
Proof.
  revert s m r. induction l as [|a l IH]; intros s m r; simpl.
  - intros [= <- <-]. now split.
  - destruct s as [|c s]; [discriminate|].
    destruct (N.eqb_spec c a) as [->|]; [|discriminate].
    destruct (literal l s) as [[m' r']|] eqn:E; [|discriminate].
    intros [= <- <-]. destruct (IH _ _ _ E) as [-> ->]. now split.
Qed.

Lemma literal_sound l : l <> [] -> sound (literal l).
Proof.
  intros Hl s m r H. destruct (literal_split _ _ _ _ H) as [-> ->].
  now split.
Qed.

Lemma first_match_sound alts :
  Forall sound alts -> sound (first_match alts).
Proof.
  induction 1 as [|a alts Ha _ IH]; intros s m r; simpl; [discriminate|].
  destruct (a s) as [[m' r']|] eqn:E; [|apply IH].
  intros [= <- <-]. now apply Ha.
Qed.

Lemma group_sound : sound group.
Proof.
  apply first_match_sound. unfold alternatives.
  repeat (apply List.Forall_cons;
          [ first [ exact identifier_sound | exact number_sound
                  | apply quoted_sound | exact punct_sound
                  | apply literal_sound; discriminate ] | ]).
  apply List.Forall_nil.
Qed.

(** A successful [exec] leaves strictly less input. *)
Lemma match_here_length s tok r :
  match_here s = Some (tok, r) -> (length r < length s)%nat.
Proof.
  unfold match_here.
  destruct (group (snd (star is_space s))) as [[m r']|] eqn:E; [|discriminate].
  intros [= <- <-]. destruct (group_sound _ _ _ E) as [E' Hm].
  pose proof (star_length is_space s) as L1.
  pose proof (star_length is_space r') as L2.
  rewrite E', length_app in L1. destruct m; [congruence|simpl in L1; lia].
Qed.

Lemma exec_length s tok r :
  exec s = Some (tok, r) -> (length r < length s)%nat.
Proof.
  induction s as [|c s IH]; [discriminate|].
  replace (exec (c :: s)) with
    (match match_here (c :: s) with Some m => Some m | None => exec s end)
    by reflexivity.
  destruct (match_here (c :: s)) as [[t' r']|] eqn:E.
  - intros [= <- <-]. now apply match_here_length in E.
  - intros H. apply IH in H. simpl. lia.
Qed.

(** The loop bound of [lexer] is never the reason the loop stops: any two
    bounds above the length of the input give the same tokens. *)
Lemma lex_loop_fuel fuel1 fuel2 s :
  (length s < fuel1)%nat -> (length s < fuel2)%nat ->
  lex_loop fuel1 s = lex_loop fuel2 s.
Proof.
  revert fuel2 s.
  induction fuel1 as [|fuel1 IH]; intros [|fuel2] s H1 H2; try lia.
  simpl. destruct (exec s) as [[tok r]|] eqn:E; [|reflexivity].
  apply exec_length in E. apply (f_equal (cons tok)). apply IH; lia.
Qed.

(** The loop of [lexer], unrolled once. *)
Lemma lexer_unfold s :
  lexer s = match exec s with
            | Some (tok, r) => tok :: lexer r
            | None => []
            end.
Proof.
  unfold lexer at 1. simpl.
  destruct (exec s) as [[tok r]|] eqn:E; [|reflexivity].
  apply exec_length in E. apply (f_equal (cons tok)).
  apply lex_loop_fuel; lia.
Qed.

End LexerFacts.

(** ** Lexer: what is skipped, and which tokens can be emitted *)

Module LexerSkip.
Import LexerFacts.

Lemma starts_token_false c :
  starts_token c = false ->
  is_ident_start c = false /\ is_digit c = false /\ (c =? 34) = false
  /\ (c =? 39) = false /\ is_punct c = false /\ (c =? 33) = false
  /\ (c =? 38) = false /\ (c =? 124) = false.
Proof.
  unfold starts_token. intros H.
  repeat (apply orb_false_elim in H as [H ?]). repeat split; try assumption.
  unfold is_ident_start.
  repeat match goal with E : _ = false |- _ => rewrite E; clear E end.
  reflexivity.
Qed.

Lemma not_punct c :
  is_punct c = false ->
  (c =? 61) = false /\ (c =? 60) = false /\ (c =? 62) = false.
Proof.
  intros H. cbn in H.
  repeat (apply orb_false_elim in H as [? H]). repeat split; assumption.
Qed.

Lemma space_starts_no_token c : is_space c = true -> starts_token c = false.
Proof.
  unfold is_space, starts_token, is_ident_start, is_digit, is_punct, between.
  cbn [existsb js map list_ascii_of_string].
  intros H. repeat (apply orb_prop in H as [H|H]);
    try apply andb_prop in H as [?%N.leb_le ?%N.leb_le];
    try apply N.eqb_eq in H;
    repeat match goal with
           | |- (_ || _) = false => apply orb_false_intro
           | |- (_ && _) = false => apply andb_false_iff
           end;
    rewrite ?N.eqb_neq, ?N.leb_gt; cbn; lia.
Qed.

(** No alternative matches where the input starts with such a code unit. *)
Lemma group_none c s : starts_token c = false -> group (c :: s) = None.
Proof.
  intros H. destruct (starts_token_false _ H) as (H1 & H2 & H3 & H4 & H5 & H6 & H7 & H8).
  destruct (not_punct _ H5) as (P1 & P2 & P3).
  unfold group, alternatives.
  change (js "==") with [61; 61]. change (js "!=") with [33; 61].
  change (js "<=") with [60; 61]. change (js ">=") with [62; 61].
  change (js "&&") with [38; 38]. change (js "||") with [124; 124].
  change (js "!") with [33].
  unfold first_match, identifier, number, digits, quoted, punct.
  cbn [star literal].
  rewrite ?H1, ?H2, ?H3, ?H4, ?H5, ?H6, ?H7, ?H8, ?P1, ?P2, ?P3.
  reflexivity.
Qed.

Lemma match_here_skip c s :
  starts_token c = false ->
  match_here (c :: s) = if is_space c then match_here s else None.
Proof.
  intros H. unfold match_here. cbn [star].
  destruct (is_space c).
  - destruct (star is_space s) as [m r]. reflexivity.
  - cbn [snd]. now rewrite group_none.
Qed.

Lemma exec_head s :
  exec s = match match_here s with Some m => Some m | None => exec (tail s) end.
Proof. destruct s; reflexivity. Qed.

Lemma exec_skip c s : starts_token c = false -> exec (c :: s) = exec s.
Proof.
  intros H. rewrite (exec_head (c :: s)), match_here_skip by assumption.
  cbn [tail]. destruct (is_space c); [|reflexivity].
  destruct (match_here s) eqn:E; [|reflexivity].
  now rewrite exec_head, E.
Qed.

(** Every token the lexer emits is the text some alternative matched. *)
Lemma exec_group s tok r :
  exec s = Some (tok, r) -> exists u r', group u = Some (tok, r').
Proof.
  induction s as [|c s IH]; [discriminate|].
  rewrite exec_head. cbn [tail]. unfold match_here at 1.
  destruct (group (snd (star is_space (c :: s)))) as [[m r']|] eqn:E.
  - intros [= <- <-]. eauto.
  - exact IH.
Qed.

Lemma lexer_tokens_matched s tok :
  In tok (lexer s) -> exists u r, group u = Some (tok, r).
Proof.
  remember (length s) as n eqn:En. revert s En.
  induction n as [n IH] using lt_wf_ind. intros s -> Hin.
  rewrite lexer_unfold in Hin.
  destruct (exec s) as [[t r]|] eqn:E; [|contradiction].
  destruct Hin as [->|Hin]; [eapply exec_group; eassumption|].
  apply exec_length in E. eapply IH; [exact E|reflexivity|exact Hin].
Qed.

(** At a code unit of the punctuation class the class alternative wins:
    the token is that single code unit. *)
Lemma group_punct c s tok r :
  is_punct c = true -> group (c :: s) = Some (tok, r) -> tok = [c].
Proof.
  intros H. cbn in H.
  repeat (apply orb_prop in H as [H|H]); try discriminate;
    apply N.eqb_eq in H; subst c; vm_compute; now intros [= <- <-].
Qed.

Lemma token_of_punct tok u r c t :
  group u = Some (tok, r) -> tok = c :: t -> is_punct c = true -> t = [].
Proof.
  intros Hg -> Hc. destruct (group_sound _ _ _ Hg) as [-> _].
  apply (group_punct c _ _ _ Hc) in Hg. now injection Hg.
Qed.

End LexerSkip.

Export LexerSkip.

(** ** Evaluator: general facts *)

Module EvalFacts.

(** Induction on syntax trees, with the hypothesis for every argument of a
    call. *)
Lemma node_induction (P : node -> Prop) :
  (forall v, P (NNumber v)) ->
  (forall v, P (NString v)) ->
  (forall v, P (NLiteral v)) ->
  (forall k, P (NKeyword k)) ->
  (forall x, P (NVariable x)) ->
  (forall c args, P c -> Forall P args -> P (NCall c args)) ->
  (forall op l r, P l -> P r -> P (NBinary op l r)) ->
  (forall k x e, P e -> P (NVarDecl k x e)) ->
  (forall e, P e -> P (NExprStmt e)) ->
  forall n, P n.
Proof.
  intros Hn Hs Hl Hk Hv Hc Hb Hd He.
  fix IH 1.
  intros [v|v|v|k|x|c args|op l r|k x e|e];
    [ apply Hn | apply Hs | apply Hl | apply Hk | apply Hv | apply Hc
    | apply Hb | apply Hd | apply He ]; try apply IH.
  induction args as [|a args IHargs];
    [apply List.Forall_nil|apply List.Forall_cons; [apply IH|exact IHargs]].
Qed.

Section WithHost.
Variable host : Host.

(** The two equations of the [call] case. *)
Lemma eval_call callee arguments :
  eval host (NCall callee arguments)
  = (let* c := eval host callee in
     match c with
     | VFunction f =>
         let* args := map_eval host arguments in call host f args
     | _ => throw (Error (js "Call of non-function"))
     end).
Proof. reflexivity. Qed.

Lemma total_ret {A} (a : A) : total (ret a).
Proof. intros st; discriminate. Qed.

Lemma total_throw {A} e : total (@throw state A e).
Proof. intros st; discriminate. Qed.

Lemma total_bind {A B} (c : @M state A) (k : A -> @M state B) :
  total c -> (forall a, total (k a)) -> total (bind c k).
Proof.
  intros Hc Hk st. unfold bind. specialize (Hc st).
  destruct (c st) as [[a|e|] st']; simpl in *;
    [apply Hk|discriminate|congruence].
Qed.

Lemma total_call f args : total (call host f args).
Proof.
  intros st. unfold call.
  destruct f; try discriminate;
    destruct (nth 0 args VUndefined); discriminate.
Qed.

Lemma total_binary op l r : total (binary host op l r).
Proof.
  intros st. unfold binary.
  repeat (case_bool_decide; [discriminate|]). discriminate.
Qed.

Lemma total_map_eval args :
  Forall (fun a => total (eval host a)) args -> total (map_eval host args).
Proof.
  induction 1 as [|a args Ha _ IH]; [apply total_ret|].
  cbn [map_eval]. apply total_bind; [exact Ha|intros v].
  apply total_bind; [exact IH|intros vs; apply total_ret].
Qed.

(** [eval] is a structural recursion: it always returns or throws. *)
Lemma eval_total n : total (eval host n).
Proof.
  induction n as [v|v|v|k|x|c args IHc IHargs|op l r IHl IHr|k x e IHe|e IHe]
    using node_induction;
    try (intros st; discriminate).
  - intros st. cbn. unfold lookup_variable. destruct (env st !! x); discriminate.
  - rewrite eval_call. apply total_bind; [exact IHc|intros v].
    destruct v; try apply total_throw.
    apply total_bind; [now apply total_map_eval|intros vs; apply total_call].
  - cbn [eval]. apply total_bind; [exact IHl|intros a].
    apply total_bind; [exact IHr|intros b; apply total_binary].
  - cbn [eval]. apply total_bind; [exact IHe|intros v].
    apply total_bind; [intros st; discriminate|intros _; apply total_ret].
  - exact IHe.
Qed.

(** *** Expressions do not change the environment *)

Lemma keeps_env_bind {A B} (c : @M state A) (k : A -> @M state B) :
  keeps_env c -> (forall a, keeps_env (k a)) -> keeps_env (bind c k).
Proof.
  intros Hc Hk st. unfold bind. specialize (Hc st).
  destruct (c st) as [[a|e|] st']; simpl in *; [|assumption..].
  now rewrite Hk.
Qed.

Lemma keeps_env_call f args : keeps_env (call host f args).
Proof.
  intros st. unfold call.
  destruct f; try reflexivity; destruct (nth 0 args VUndefined); reflexivity.
Qed.

Lemma keeps_env_binary op l r : keeps_env (binary host op l r).
Proof.
  intros st. unfold binary.
  repeat (case_bool_decide; [reflexivity|]). reflexivity.
Qed.

Lemma keeps_env_map_eval args :
  Forall (fun a => keeps_env (eval host a)) args ->
  keeps_env (map_eval host args).
Proof.
  induction 1 as [|a args Ha _ IH]; [intros st; reflexivity|].
  cbn [map_eval]. apply keeps_env_bind; [exact Ha|intros v].
  apply keeps_env_bind; [exact IH|intros vs st; reflexivity].
Qed.

Lemma eval_expression_env n :
  expression n = true -> keeps_env (eval host n).
Proof.
  induction n as [v|v|v|k|x|c args IHc IHargs|op l r IHl IHr|k x e IHe|e IHe]
    using node_induction; cbn [expression]; intros He;
    try discriminate; try (intros st; reflexivity).
  - intros st. cbn. unfold lookup_variable. destruct (env st !! x); reflexivity.
  - apply andb_prop in He as [Hc Hargs]. rewrite eval_call.
    apply keeps_env_bind; [auto|intros v].
    destruct v; try (intros st; reflexivity).
    apply keeps_env_bind; [|intros vs; apply keeps_env_call].
    apply keeps_env_map_eval.
    rewrite forallb_forall in Hargs. rewrite List.Forall_forall in IHargs |- *.
    auto.
  - apply andb_prop in He as [Hl Hr]. cbn [eval].
    apply keeps_env_bind; [auto|intros a].
    apply keeps_env_bind; [auto|intros b; apply keeps_env_binary].
Qed.

(** A statement that throws has not touched the environment: the only
    assignment is the last step of a declaration. *)
Lemma failing_statement_env stmt st e st' :
  statement stmt = true ->
  eval host stmt st = (Throw e, st') -> env st' = env st.
Proof.
  destruct stmt as [| | | | | | |k x ex|ex]; try discriminate;
    cbn [statement eval]; intros Hex Hev.
  - pose proof (eval_expression_env ex Hex st) as Henv.
    unfold bind in Hev.
    destruct (eval host ex st) as [[v|e'|] st1]; simpl in *;
      [discriminate Hev|injection Hev as <- <-; exact Henv|discriminate Hev].
  - pose proof (eval_expression_env ex Hex st) as Henv.
    now rewrite Hev in Henv.
Qed.

(** *** The statement loop *)

Lemma run_app done rest st st1 :
  run host done st = (Return tt, st1) ->
  run host (done ++ rest) st = run host rest st1.
Proof.
  revert st. induction done as [|s done IH]; intros st; cbn [run app].
  - now intros [= <-].
  - unfold bind. destruct (eval host s st) as [[v|e|] st2]; try discriminate.
    apply IH.
Qed.

End WithHost.
End EvalFacts.

Export EvalFacts.

(** ** Keyword nodes *)

Module KeywordFacts.

Lemma throws_bind_l {A B} (c : @M state A) (k : A -> @M state B) :
  throws c -> throws (bind c k).
Proof.
  intros Hc st. destruct (Hc st) as (e & st' & E).
  exists e, st'. unfold bind. now rewrite E.
Qed.

Lemma throws_bind_r {A B} (c : @M state A) (k : A -> @M state B) :
  total c -> (forall a, throws (k a)) -> throws (bind c k).
Proof.
  intros Hc Hk st. unfold bind. specialize (Hc st).
  destruct (c st) as [[a|e|] st']; simpl in *; [apply Hk|eauto|congruence].
Qed.

Lemma map_eval_throws host args :
  Forall (fun a => has_keyword a = true -> throws (eval host a)) args ->
  existsb has_keyword args = true -> throws (map_eval host args).
Proof.
  induction 1 as [|a args Ha _ IH]; cbn [existsb map_eval]; [discriminate|].
  intros [Hk|Hk]%orb_prop.
  - apply throws_bind_l; auto.
  - apply throws_bind_r; [apply eval_total|intros v].
    apply throws_bind_l; auto.
Qed.

Lemma keyword_throws host n : has_keyword n = true -> throws (eval host n).
Proof.
  induction n as [v|v|v|k|x|c args IHc IHargs|op l r IHl IHr|k x e IHe|e IHe]
    using node_induction; cbn [has_keyword]; intros Hk; try discriminate.
  - intros st. now exists (Error (js "Unknown node type keyword")), st.
  - rewrite eval_call. apply orb_prop in Hk as [Hk|Hk].
    + apply throws_bind_l; auto.
    + apply throws_bind_r; [apply eval_total|intros v].
      destruct v; try (intros st; eexists _, st; reflexivity).
      apply throws_bind_l. now apply map_eval_throws.
  - cbn [eval]. apply orb_prop in Hk as [Hk|Hk].
    + apply throws_bind_l; auto.
    + apply throws_bind_r; [apply eval_total|intros a].
      apply throws_bind_l; auto.
  - cbn [eval]. apply throws_bind_l; auto.
  - cbn [eval]. auto.
Qed.

End KeywordFacts.

Export KeywordFacts.

(** ** Parser: termination and the shape of its result *)

Module ParserFacts.
Section WithTokens.

Variable tokens : list jsstring.

Lemma post_ret {A} (a : A) pos (R : A -> nat -> Prop) :
  R a pos -> post (ret a) pos R.
Proof. intros H; exact H. Qed.

Lemma post_throw {A} e pos (R : A -> nat -> Prop) : post (throw e) pos R.
Proof. exact I. Qed.

Lemma post_bind {A B} (c : @M nat A) (k : A -> @M nat B) pos R1 R2 :
  post c pos R1 ->
  (forall a pos', R1 a pos' -> post (k a) pos' R2) ->
  post (bind c k) pos R2.
Proof.
  unfold post, bind. intros Hc Hk.
  destruct (c pos) as [[a|e|] pos']; [now apply Hk|exact I|exact Hc].
Qed.

Lemma post_weaken {A} (c : @M nat A) pos (R R' : A -> nat -> Prop) :
  post c pos R -> (forall a pos', R a pos' -> R' a pos') -> post c pos R'.
Proof.
  unfold post. intros Hc HR.
  destruct (c pos) as [[a|e|] pos']; [now apply HR|exact I|exact Hc].
Qed.

Lemma post_peek pos :
  post (peek tokens) pos (fun t pos' => pos' = pos /\ t = tokens !! pos).
Proof. now split. Qed.

Lemma post_peek_is s pos :
  post (peek_is tokens s) pos
       (fun b pos' => pos' = pos /\ (b = true -> (pos < length tokens)%nat)).
Proof.
  unfold post, peek_is, bind, peek, ret. split; [reflexivity|].
  intros E%bool_decide_eq_true. now apply lookup_lt_Some in E.
Qed.

Lemma post_consume_any pos :
  post (consume tokens None) pos
       (fun t pos' => pos' = S pos /\ t = tokens !! pos).
Proof. now split. Qed.

Lemma post_consume e pos :
  e <> [] ->
  post (consume tokens (Some e)) pos
       (fun _ pos' => pos' = S pos /\ (pos < length tokens)%nat).
Proof.
  intros He. unfold post, consume. destruct e as [|c e]; [congruence|].
  case_bool_decide as E; [|exact I].
  split; [reflexivity|]. now apply lookup_lt_Some in E.
Qed.

Lemma parsePrimary_post pos :
  post (parsePrimary tokens) pos
       (fun a pos' => expression a = true /\ pos' = S pos
                      /\ (pos < length tokens)%nat).
Proof.
  unfold post, parsePrimary, bind, peek.
  destruct (tokens !! pos) as [[|c t]|] eqn:E; try exact I.
  apply lookup_lt_Some in E.
  repeat match goal with
         | |- context [if ?b then _ else _] => destruct b
         end; cbn; auto.
Qed.

Lemma binary_operator_token pos :
  is_binary_operator (tokens !! pos) = true -> (pos < length tokens)%nat.
Proof.
  destruct (tokens !! pos) eqn:E; [intros _; now apply lookup_lt_Some in E|].
  discriminate.
Qed.

Lemma declaration_keyword_token pos :
  is_declaration_keyword (tokens !! pos) = true -> (pos < length tokens)%nat.
Proof.
  destruct (tokens !! pos) eqn:E; [intros _; now apply lookup_lt_Some in E|].
  discriminate.
Qed.

(** The postconditions of the five mutually recursive functions: the
    result is an expression tree, [pos] has moved forward (strictly, for
    the functions that read a primary), and it stays within the tokens. *)
Lemma parse_post fuel :
  (forall pos, (2 * (length tokens - pos) + 3 <= fuel)%nat ->
     post (parseExpression tokens fuel) pos
          (fun a p => expression a = true /\ (pos < p <= length tokens)%nat))
  /\ (forall pos lhs, expression lhs = true -> (pos <= length tokens)%nat ->
     (2 * (length tokens - pos) + 2 <= fuel)%nat ->
     post (binary_loop tokens fuel lhs) pos
          (fun a p => expression a = true /\ (pos <= p <= length tokens)%nat))
  /\ (forall pos, (2 * (length tokens - pos) + 2 <= fuel)%nat ->
     post (parseCall tokens fuel) pos
          (fun a p => expression a = true /\ (pos < p <= length tokens)%nat))
  /\ (forall pos expr, expression expr = true -> (pos <= length tokens)%nat ->
     (2 * (length tokens - pos) + 3 <= fuel)%nat ->
     post (call_loop tokens fuel expr) pos
          (fun a p => expression a = true /\ (pos <= p <= length tokens)%nat))
  /\ (forall pos args, forallb expression args = true ->
     (2 * (length tokens - pos) + 4 <= fuel)%nat ->
     post (args_loop tokens fuel args) pos
          (fun a p => forallb expression a = true
                      /\ (pos < p <= length tokens)%nat)).
Proof.
  induction fuel as [|fuel (IHE & IHB & IHC & IHL & IHA)];
    [repeat split; intros; lia|].
  split; [|split; [|split; [|split]]].
  - intros pos Hf. cbn [parseExpression].
    eapply post_bind; [apply IHC; lia|]. intros a p (Ha & Hp).
    eapply post_weaken; [apply IHB; [exact Ha|lia|lia]|].
    cbv beta. intros b q (Hb & Hq). split; [exact Hb|lia].
  - intros pos lhs Hl Hpos Hf. cbn [binary_loop].
    eapply post_bind; [apply post_peek|]. intros t p [-> ->].
    destruct (is_binary_operator (tokens !! pos)) eqn:Eop;
      [|apply post_ret; split; [exact Hl|lia]].
    apply binary_operator_token in Eop.
    eapply post_bind; [apply post_consume_any|]. intros op p [-> _].
    eapply post_bind; [apply IHC; lia|]. intros rhs p (Hr & Hp).
    eapply post_weaken;
      [apply IHB; [cbn [expression]; now rewrite Hl, Hr|lia|lia]|].
    cbv beta. intros b q (Hb & Hq). split; [exact Hb|lia].
  - intros pos Hf. cbn [parseCall].
    eapply post_bind; [apply parsePrimary_post|]. intros a p (Ha & -> & Hp).
    eapply post_weaken; [apply IHL; [exact Ha|lia|lia]|].
    cbv beta. intros b q (Hb & Hq). split; [exact Hb|lia].
  - intros pos expr He Hpos Hf. cbn [call_loop].
    eapply post_bind; [apply post_peek_is|]. intros [|] p [-> Hopen];
      [|apply post_ret; split; [exact He|lia]].
    specialize (Hopen eq_refl).
    eapply post_bind; [apply post_consume; discriminate|]. intros _ p [-> _].
    eapply post_bind; [apply post_peek_is|]. intros close p [-> _].
    eapply (post_bind _ _ _
              (fun args p => forallb expression args = true
                             /\ (S pos <= p <= length tokens)%nat)).
    { destruct close; [apply post_ret; split; [reflexivity|lia]|].
      eapply post_weaken; [apply IHA; [reflexivity|lia]|].
      cbv beta. intros args p (Hargs & Hp). split; [exact Hargs|lia]. }
    intros args p (Hargs & Hp).
    eapply post_bind; [apply post_consume; discriminate|]. intros _ q [-> Hq].
    eapply post_weaken;
      [apply IHL; [cbn [expression]; now rewrite He, Hargs|lia|lia]|].
    cbv beta. intros b q (Hb & Hq'). split; [exact Hb|lia].
  - intros pos args Hargs Hf. cbn [args_loop].
    eapply post_bind; [apply IHE; lia|]. intros arg p (Harg & Hp).
    assert (Hall : forallb expression (args ++ [arg]) = true).
    { rewrite forallb_app, Hargs. cbn. now rewrite Harg. }
    eapply post_bind; [apply post_peek_is|]. intros [|] q [-> Hcomma];
      [|apply post_ret; split; [exact Hall|lia]].
    specialize (Hcomma eq_refl).
    eapply post_bind; [apply post_consume; discriminate|]. intros _ q [-> _].
    eapply post_weaken; [apply IHA; [exact Hall|lia]|].
    cbv beta. intros b q (Hb & Hq). split; [exact Hb|lia].
Qed.

Lemma parseStatement_post fuel pos :
  (2 * (length tokens - pos) + 3 <= fuel)%nat ->
  post (parseStatement tokens fuel) pos
       (fun a p => statement a = true /\ (pos < p <= length tokens)%nat).
Proof.
  intros Hf. destruct (parse_post fuel) as (HE & _).
  unfold parseStatement.
  eapply post_bind; [apply post_peek|]. intros t p [-> ->].
  destruct (is_declaration_keyword (tokens !! pos)) eqn:Ek.
  - apply declaration_keyword_token in Ek.
    eapply post_bind; [apply post_consume_any|]. intros kind p [-> _].
    eapply post_bind; [apply post_consume_any|]. intros name p [-> ->].
    destruct (tokens !! S pos) as [name|] eqn:En; [|apply post_throw].
    apply lookup_lt_Some in En.
    destruct (negb (is_identifier name)); [apply post_throw|].
    eapply post_bind; [apply post_consume; discriminate|]. intros _ p [-> _].
    eapply post_bind; [apply HE; lia|].
    intros expr p (He & Hp).
    eapply post_bind; [apply post_consume; discriminate|]. intros _ q [-> Hq].
    apply post_ret. split; [exact He|lia].
  - eapply post_bind; [apply HE; exact Hf|]. intros expr p (He & Hp).
    eapply post_bind; [apply post_consume; discriminate|]. intros _ q [-> Hq].
    apply post_ret. split; [exact He|lia].
Qed.

Lemma statements_loop_post fuel pos statements :
  Forall (fun s => statement s = true) statements ->
  (pos <= length tokens)%nat ->
  (2 * (length tokens - pos) + 4 <= fuel)%nat ->
  post (statements_loop tokens fuel statements) pos
       (fun ast _ => Forall (fun s => statement s = true) ast).
Proof.
  revert pos statements.
  induction fuel as [|fuel IH]; intros pos statements Hs Hpos Hf; [lia|].
  cbn [statements_loop]. unfold isAtEnd.
  eapply (post_bind _ _ _
            (fun b p => p = pos /\ b = bool_decide (length tokens <= pos)%nat));
    [now split|].
  intros b p [-> ->]. case_bool_decide as Hend; [now apply post_ret|].
  eapply post_bind; [apply parseStatement_post; lia|].
  intros stmt p (Hstmt & Hp).
  apply IH; [|lia|lia].
  apply Forall_app. split; [exact Hs|]. now constructor.
Qed.

End WithTokens.

(** The recursion bound of the model is never reached: on every token
    sequence [parser] returns a list of statements or throws, as the
    JavaScript function does. *)
Lemma parser_terminates tokens : parser tokens <> OutOfFuel.
Proof.
  unfold parser.
  pose proof (statements_loop_post tokens (fuel_for tokens) 0 []) as H.
  unfold post in H.
  destruct (statements_loop tokens (fuel_for tokens) [] 0%nat) as [[ast|e|] p];
    try discriminate.
  intros _. apply H; [constructor|lia|unfold fuel_for; lia].
Qed.

(** Every statement [parser] returns is a declaration or an expression
    statement over an expression tree. *)
Lemma parser_statements tokens ast :
  parser tokens = Return ast -> Forall (fun s => statement s = true) ast.
Proof.
  unfold parser.
  pose proof (statements_loop_post tokens (fuel_for tokens) 0 []) as H.
  unfold post in H.
  destruct (statements_loop tokens (fuel_for tokens) [] 0%nat) as [[ast'|e|] p];
    try discriminate.
  intros [= <-]. apply H; [constructor|lia|unfold fuel_for; lia].
Qed.

(** A whole run returns or throws. *)
Lemma executeFlux_terminates host code st :
  fst (executeFlux host code st) <> OutOfFuel.
Proof.
  unfold executeFlux. pose proof (parser_terminates (lexer code)) as Hp.
  destruct (parser (lexer code)) as [ast|e|]; [|discriminate|congruence].
  generalize (with_env (fun _ => install_builtins ∅) st). clear.
  induction ast as [|stmt ast IH]; intros st; [discriminate|].
  cbn [run]. unfold bind. pose proof (eval_total host stmt st) as Ht.
  destruct (eval host stmt st) as [[v|e|] st']; cbn in *;
    [apply IH|discriminate|congruence].
Qed.

End ParserFacts.

Export ParserFacts.

(** * The claims of the specification *)

(** C1 (as amended): the lexer has no failure outcome.  A code unit that
    starts none of the token alternatives is skipped by the search of
    [exec], exactly as white space is: the tokens of [c :: s] are the tokens
    of [s], and the caller receives them. *)
Theorem C1_unrecognized_code_unit_skipped (c : code_unit) (s : jsstring) :
  starts_token c = false -> lexer (c :: s) = lexer s.
Proof.
  intros H.
  rewrite (LexerFacts.lexer_unfold (c :: s)), (LexerFacts.lexer_unfold s).
  now rewrite exec_skip.
Qed.

Lemma C1_unrecognized_code_unit_skipped_witness :
  starts_token 64 = false /\ lexer (64 :: js "1;") = lexer (js "1;").
Proof.
  split; [reflexivity|].
  apply (C1_unrecognized_code_unit_skipped 64 (js "1;")). reflexivity.
Defined.

(** C1 as stated fails: an input with the code unit 64 (at sign), which no
    alternative matches, is tokenized without error; the caller receives
    the tokens around it and the whole run succeeds. *)
Lemma C1_counterexample :
  In 64 (js "let x = 1 @ ;")
  /\ starts_token 64 = false /\ is_space 64 = false
  /\ lexer (js "let x = 1 @ ;") = map js ["let"; "x"; "="; "1"; ";"]
  /\ fst (executeFlux sample_host (js "let x = 1 @ ;") initial_state)
     = Return tt.
Proof. vm_compute. intuition. Qed.

(** C2 (the code departs from it): [==], [<=] and [>=] are listed after the
    one-character class in [tokenPattern], so the class always wins: they
    are split into two tokens, and no input makes the lexer emit one of
    them.  [!=], [&&] and [||] do come out as one token. *)
Theorem C2_double_operators_split :
  lexer (js "a==b") = map js ["a"; "="; "="; "b"]
  /\ lexer (js "a<=b") = map js ["a"; "<"; "="; "b"]
  /\ lexer (js "a>=b") = map js ["a"; ">"; "="; "b"]
  /\ lexer (js "a!=b&&c||d") = map js ["a"; "!="; "b"; "&&"; "c"; "||"; "d"]
  /\ forall input tok,
       In tok (lexer input) -> ~ In tok (map js ["=="; "<="; ">="]).
Proof.
  repeat split; try (vm_compute; reflexivity).
  intros input tok Hin Hop.
  destruct (lexer_tokens_matched _ _ Hin) as (u & r & Hg).
  assert (Hd : forall c t, tok = c :: t -> is_punct c = true -> t = [])
    by (intros c t; eapply token_of_punct; eassumption).
  cbn in Hop. destruct Hop as [<-|[<-|[<-|[]]]];
    (specialize (Hd _ _ eq_refl); discriminate Hd; reflexivity).
Qed.

(** C3: ["1+2*3;"] is tokenized into six tokens, parsed into one expression
    statement in which [+] is the left operand of [*], and evaluated to 9:
    one flat, left-associative tier. *)
Theorem C3_flat_left_to_right (host : Host) (st : state) :
  let stmt :=
    NExprStmt (NBinary (js "*")
                 (NBinary (js "+") (NNumber 1) (NNumber 2)) (NNumber 3)) in
  lexer (js "1+2*3;") = map js ["1"; "+"; "2"; "*"; "3"; ";"]
  /\ parser (map js ["1"; "+"; "2"; "*"; "3"; ";"]) = Return [stmt]
  /\ eval host stmt st = (Return (VNumber 9), st).
Proof. repeat split; vm_compute; reflexivity. Qed.

(** C4: a declaration binds the name to the value of its initializer,
    whatever the kind and whether or not the name was bound before, and a
    reference to the name then evaluates to that value; other names keep
    their bindings. *)
Theorem C4_declaration_binds (host : Host) (kind x : jsstring) (expr : node)
    (st st' : state) (v : value) :
  eval host expr st = (Return v, st') ->
  let st'' := with_env (insert x v) st' in
  eval host (NVarDecl kind x expr) st = (Return VNull, st'')
  /\ eval host (NVariable x) st'' = (Return v, st'')
  /\ forall y, y <> x -> env st'' !! y = env st' !! y.
Proof.
  intros He st''. repeat split.
  - cbn [eval]. unfold bind. now rewrite He.
  - cbn [eval]. unfold lookup_variable, st''. cbn [with_env env].
    now rewrite lookup_insert_eq.
  - intros y Hy. unfold st''. cbn [with_env env].
    now rewrite lookup_insert_ne.
Qed.

Lemma C4_declaration_binds_witness :
  let st := with_env (insert (js "x") (VString (js "old"))) initial_state in
  let st'' := with_env (insert (js "x") (VNumber 3)) st in
  eval sample_host (NBinary (js "+") (NNumber 1) (NNumber 2)) st
  = (Return (VNumber 3), st)
  /\ eval sample_host
       (NVarDecl (js "const") (js "x")
          (NBinary (js "+") (NNumber 1) (NNumber 2))) st
     = (Return VNull, st'')
  /\ eval sample_host (NVariable (js "x")) st'' = (Return (VNumber 3), st'').
Proof.
  intros st st''.
  assert (He : eval sample_host (NBinary (js "+") (NNumber 1) (NNumber 2)) st
               = (Return (VNumber 3), st)) by reflexivity.
  split; [exact He|].
  destruct (C4_declaration_binds sample_host (js "const") (js "x") _ _ _ _ He)
    as (H1 & H2 & _).
  split; [exact H1|exact H2].
Defined.

(** C5: a [variable] node whose name is not in the environment throws
    [Undefined variable '<name>'] and leaves the state as it was; and
    whenever a statement of a parsed program throws, the environment is the
    one that statement started in.  The run stops at the failure, so no
    later statement changes it either. *)
Theorem C5_undefined_variable (host : Host) (name : jsstring) (st : state) :
  env st !! name = None ->
  eval host (NVariable name) st
  = (Throw (Error (js "Undefined variable '" ++ name ++ js "'")), st)
  /\ (forall rest,
        run host (NExprStmt (NVariable name) :: rest) st
        = (Throw (Error (js "Undefined variable '" ++ name ++ js "'")), st))
  /\ forall tokens ast stmt e st',
       parser tokens = Return ast -> In stmt ast ->
       eval host stmt st = (Throw e, st') -> env st' = env st.
Proof.
  intros Hx. split; [|split].
  - cbn [eval]. unfold lookup_variable. now rewrite Hx.
  - intros rest. cbn [run eval]. unfold bind, lookup_variable. now rewrite Hx.
  - intros tokens ast stmt e st' Hp Hin He.
    apply parser_statements in Hp. rewrite List.Forall_forall in Hp.
    eapply failing_statement_env; [apply Hp; exact Hin|exact He].
Qed.

Lemma C5_undefined_variable_witness :
  let st := fresh initial_state in
  let stmt :=
    NExprStmt (NBinary (js "+") (NVariable (js "unset")) (NNumber 1)) in
  env st !! js "unset" = None
  /\ eval sample_host (NVariable (js "unset")) st
     = (Throw (Error (js "Undefined variable 'unset'")), st)
  /\ parser (lexer (js "unset + 1;")) = Return [stmt]
  /\ eval sample_host stmt st
     = (Throw (Error (js "Undefined variable 'unset'")), st)
  /\ env st = env st.
Proof.
  intros st stmt.
  assert (Hx : env st !! js "unset" = None) by (vm_compute; reflexivity).
  assert (Hp : parser (lexer (js "unset + 1;")) = Return [stmt])
    by (vm_compute; reflexivity).
  assert (He : eval sample_host stmt st
               = (Throw (Error (js "Undefined variable 'unset'")), st))
    by (vm_compute; reflexivity).
  destruct (C5_undefined_variable sample_host (js "unset") st Hx)
    as (H1 & _ & H2).
  exact (conj Hx (conj H1 (conj Hp (conj He
           (H2 _ _ stmt _ _ Hp (or_introl eq_refl) He))))).
Defined.

(** C6: [let x = 1; x();] fails with [Call of non-function], and the state
    the run stops in still binds [x] to 1.  In general the statement loop
    stops at the first statement that throws, in the state that statement
    left: what earlier statements did is not undone. *)
Theorem C6_non_callable_keeps_effects (host : Host) (st : state) :
  (let r := executeFlux host (js "let x = 1; x();") st in
   fst r = Throw (Error (js "Call of non-function"))
   /\ env (snd r) !! js "x" = Some (VNumber 1))
  /\ forall done stmt rest st1 e st2,
       run host done st = (Return tt, st1) ->
       eval host stmt st1 = (Throw e, st2) ->
       run host (done ++ stmt :: rest) st = (Throw e, st2).
Proof.
  split; [split; vm_compute; reflexivity|].
  intros done stmt rest st1 e st2 Hdone Hstmt.
  rewrite (run_app host done (stmt :: rest) st st1 Hdone).
  cbn [run]. unfold bind. now rewrite Hstmt.
Qed.

Lemma C6_non_callable_keeps_effects_witness :
  let decl := NVarDecl (js "let") (js "x") (NNumber 1) in
  let st1 := with_env (insert (js "x") (VNumber 1)) initial_state in
  run sample_host [decl] initial_state = (Return tt, st1)
  /\ run sample_host [decl; NCall (NVariable (js "x")) []] initial_state
     = (Throw (Error (js "Call of non-function")), st1).
Proof.
  intros decl st1.
  assert (H1 : run sample_host [decl] initial_state = (Return tt, st1))
    by reflexivity.
  split; [exact H1|].
  exact (proj2 (C6_non_callable_keeps_effects sample_host initial_state)
           [decl] (NCall (NVariable (js "x")) []) [] st1 _ st1 H1 eq_refl).
Defined.

Lemma declaration_keyword kind :
  In kind (map js ["let"; "const"; "var"]) ->
  is_declaration_keyword (Some kind) = true.
Proof.
  cbn. intros [<-|[<-|[<-|[]]]]; reflexivity.
Qed.

Lemma parseStatement_invalid_name tokens fuel pos kind name :
  tokens !! pos = Some kind ->
  In kind (map js ["let"; "const"; "var"]) ->
  tokens !! S pos = Some name ->
  is_identifier name = false ->
  parseStatement tokens fuel pos
  = (Throw (Error (js "Invalid variable name")), S (S pos)).
Proof.
  intros Hk Hkind Hn Hid.
  unfold parseStatement, bind, peek. rewrite Hk, (declaration_keyword _ Hkind).
  unfold consume. cbv beta iota. now rewrite Hn, Hid.
Qed.

(** C7: where a declaration's name token is not an identifier,
    [parseStatement] throws [Invalid variable name] with [pos] just after
    the name: neither [=] nor any token of the initializer has been
    consumed.  A program that starts with such a declaration is rejected:
    [parser] throws that error. *)
Theorem C7_invalid_variable_name (tokens rest : list jsstring)
    (fuel pos : nat) (kind name : jsstring) :
  tokens !! pos = Some kind ->
  In kind (map js ["let"; "const"; "var"]) ->
  tokens !! S pos = Some name ->
  is_identifier name = false ->
  parseStatement tokens fuel pos
  = (Throw (Error (js "Invalid variable name")), S (S pos))
  /\ parser (kind :: name :: rest)
     = Throw (Error (js "Invalid variable name")).
Proof.
  intros Hk Hkind Hn Hid.
  split; [now apply parseStatement_invalid_name with kind name|].
  unfold parser, fuel_for. cbn [Nat.add statements_loop].
  unfold bind at 1. unfold isAtEnd.
  rewrite bool_decide_eq_false_2 by (cbn [length]; lia).
  unfold bind.
  now rewrite (parseStatement_invalid_name _ _ 0%nat kind name).
Qed.

Lemma C7_invalid_variable_name_witness :
  let tokens := lexer (js "let 1 = 2;") in
  tokens !! 0%nat = Some (js "let")
  /\ tokens !! 1%nat = Some (js "1")
  /\ is_identifier (js "1") = false
  /\ parseStatement tokens (fuel_for tokens) 0%nat
     = (Throw (Error (js "Invalid variable name")), 2%nat)
  /\ parser tokens = Throw (Error (js "Invalid variable name")).
Proof.
  intros tokens.
  assert (H0 : tokens !! 0%nat = Some (js "let")) by reflexivity.
  assert (H1 : tokens !! 1%nat = Some (js "1")) by reflexivity.
  assert (Hid : is_identifier (js "1") = false) by reflexivity.
  assert (Hk : In (js "let") (map js ["let"; "const"; "var"]))
    by (left; reflexivity).
  destruct (C7_invalid_variable_name tokens (map js ["="; "2"; ";"])
              (fuel_for tokens) 0%nat (js "let") (js "1") H0 Hk H1 Hid)
    as [Hs Hp].
  repeat split; assumption.
Defined.

(** C8: in the environment [executeFlux] installs, the statements
    [len("abc");], [upper("ab");] and [sqrt(9);] parse to a call of the
    built-in on the literal and evaluate to 3, to the string AB and to 3. *)
Theorem C8_builtin_values (host : Host) (st : state) :
  let call_of f arg := NExprStmt (NCall (NVariable (js f)) [arg]) in
  parser (lexer (js "len(" ++ quote (js "abc") ++ js ");"))
  = Return [call_of "len" (NString (js "abc"))]
  /\ parser (lexer (js "upper(" ++ quote (js "ab") ++ js ");"))
     = Return [call_of "upper" (NString (js "ab"))]
  /\ parser (lexer (js "sqrt(9);")) = Return [call_of "sqrt" (NNumber 9)]
  /\ eval host (call_of "len" (NString (js "abc"))) (fresh st)
     = (Return (VNumber 3), fresh st)
  /\ eval host (call_of "upper" (NString (js "ab"))) (fresh st)
     = (Return (VString (js "AB")), fresh st)
  /\ eval host (call_of "sqrt" (NNumber 9)) (fresh st)
     = (Return (VNumber 3), fresh st).
Proof. repeat split; vm_compute; reflexivity. Qed.

(** C9: a [keyword] node has no case in [eval]: evaluating one throws
    [Unknown node type keyword], and evaluating any tree that contains one
    throws (at that node or earlier) instead of returning a value. *)
Theorem C9_keyword_node_throws (host : Host) (n : node) (st : state) :
  has_keyword n = true ->
  (exists e st', eval host n st = (Throw e, st'))
  /\ forall k,
       eval host (NKeyword k) st
       = (Throw (Error (js "Unknown node type keyword")), st).
Proof.
  intros Hk. split; [now apply keyword_throws|reflexivity].
Qed.

Lemma C9_keyword_node_throws_witness :
  let n := NExprStmt (NBinary (js "+") (NNumber 1) (NKeyword (js "while"))) in
  has_keyword n = true
  /\ parser (lexer (js "1 + while;")) = Return [n]
  /\ exists e st', eval sample_host n initial_state = (Throw e, st').
Proof.
  intros n. split; [reflexivity|]. split; [reflexivity|].
  exact (proj1 (C9_keyword_node_throws sample_host n initial_state eq_refl)).
Defined.

(** C10: when the callee of a call evaluates to a value that is not a
    function, the call throws [Call of non-function] in the very state the
    callee left: no argument has been evaluated, so nothing an argument
    would do to the environment or the console has happened. *)
Theorem C10_non_callable_before_arguments (host : Host) (callee : node)
    (arguments : list node) (st st' : state) (v : value) :
  eval host callee st = (Return v, st') ->
  (forall f, v <> VFunction f) ->
  eval host (NCall callee arguments) st
  = (Throw (Error (js "Call of non-function")), st').
Proof.
  intros Hc Hv. rewrite eval_call. unfold bind. rewrite Hc.
  destruct v; try reflexivity. now destruct (Hv f).
Qed.

Lemma C10_non_callable_before_arguments_witness :
  let st1 := with_env (insert (js "x") (VNumber 1)) (fresh initial_state) in
  let print_arg :=
    NCall (NVariable (js "print")) [NString (js "side effect")] in
  eval sample_host (NVariable (js "x")) st1 = (Return (VNumber 1), st1)
  /\ eval sample_host (NCall (NVariable (js "x")) [print_arg]) st1
     = (Throw (Error (js "Call of non-function")), st1)
  /\ console st1 = [].
Proof.
  intros st1 print_arg.
  assert (Hx : eval sample_host (NVariable (js "x")) st1
               = (Return (VNumber 1), st1)) by (vm_compute; reflexivity).
  split; [exact Hx|]. split; [|reflexivity].
  apply (C10_non_callable_before_arguments sample_host _ [print_arg] _ _ _ Hx).
  discriminate.
Defined.
